(** * CaltechKarts physics kernel: collision detection and collision wiring

    A shallow embedding of [library/collision.c] (the separating-axis
    collision detector) and of the collision part of the force interface
    declared in [forces.h], together with the properties proved about them.

    The C code computes on [double].  The embedding is written over an
    interface [Double] of the arithmetic the code uses; its instance
    [Float64] is the IEEE binary64 arithmetic of Rocq, in which the code can
    be run.  What is proved for every instance holds for [Float64]; what needs
    the order of the doubles is proved for [Float64], from the specification
    of its comparisons.  Geometric facts about the inputs (convexity,
    disjointness, containment) are stated on the exact values of the
    coordinates, as points of the real plane. *)

From Stdlib Require Import List Bool Arith ZArith Lia.
From Stdlib Require Import Reals Lra.
From Stdlib Require Floats.PrimFloat Floats.SpecFloat Floats.FloatOps.
From Stdlib Require Floats.FloatAxioms.
Import ListNotations.

Set Implicit Arguments.

(** ** The arithmetic of [double] used by the code *)

Class Double (D : Type) : Type := {
  d0 : D;                       (* the literal 0 *)
  d1 : D;                       (* the literal 1 *)
  dbl_max : D;                  (* __DBL_MAX__ *)
  dopp : D -> D;                (* unary minus *)
  dadd : D -> D -> D;
  dsub : D -> D -> D;
  dmul : D -> D -> D;
  ddiv : D -> D -> D;
  dsqrt : D -> D;               (* sqrt of math.h *)
  dfmin : D -> D -> D;          (* fmin of math.h *)
  dfmax : D -> D -> D;          (* fmax of math.h *)
  dlt : D -> D -> bool;         (* a < b *)
  dle : D -> D -> bool          (* a <= b *)
}.

Section Kernel.

Context {D : Type} `{Double D}.

(** C's [a > b] and [a >= b] are [b < a] and [b <= a], also on NaN. *)
Definition dgt (a b : D) : bool := dlt b a.
Definition dge (a b : D) : bool := dle b a.

(** *** Vectors and lists *)

Record vector_t : Type := mk_vector { x : D; y : D }.

Definition VEC_ZERO : vector_t := {| x := d0; y := d0 |}.

(** Modelled from the spec: [vec_subtract] of vector.c, the componentwise
    difference ("edge[i] = vertex[i] - vertex[(i+1) mod N]"). *)
Definition vec_subtract (v1 v2 : vector_t) : vector_t :=
  {| x := dsub (x v1) (x v2); y := dsub (y v1) (y v2) |}.

(** Modelled from the spec: [vec_add] of vector.c, the componentwise sum. *)
Definition vec_add (v1 v2 : vector_t) : vector_t :=
  {| x := dadd (x v1) (x v2); y := dadd (y v1) (y v2) |}.

(** Modelled from the spec: [vec_multiply] of vector.c, the product of a
    vector by a scalar. *)
Definition vec_multiply (scalar : D) (v : vector_t) : vector_t :=
  {| x := dmul scalar (x v); y := dmul scalar (y v) |}.

(** Modelled from the spec: [vec_dot] of vector.c, the scalar product ("scalar
    projections of every vertex onto unit_axis"). *)
Definition vec_dot (v1 v2 : vector_t) : D :=
  dadd (dmul (x v1) (x v2)) (dmul (y v1) (y v2)).

(** Modelled from the spec: [vec_get_length] of vector.c, the Euclidean
    length ("normalize it"). *)
Definition vec_get_length (v : vector_t) : D := dsqrt (vec_dot v v).

(** Modelled from the spec: the "generic ordered-sequence container" of
    list.c.  A [list_t] of vectors is a list; [list_get] is only ever called
    below with an index smaller than the size (see [get_edges_index_ok]), the
    default is never reached. *)
Definition list_size (l : list vector_t) : nat := length l.
Definition list_get (l : list vector_t) (i : nat) : vector_t := nth i l VEC_ZERO.
Definition list_add (l : list vector_t) (v : vector_t) : list vector_t := l ++ [v].
Definition list_init : list vector_t := [].

(** *** [get_edges] (collision.c, lines 14-27)

    The loop [for (i = 0; i < list_size(shape); i++)]: [fuel] counts the
    iterations left, [i] is the loop counter and [edges] the list built so
    far. *)
Fixpoint get_edges_loop (shape : list vector_t) (fuel i : nat)
    (edges : list vector_t) : list vector_t :=
  match fuel with
  | O => edges
  | S fuel' =>
      let vec :=
        vec_subtract (list_get shape (i mod list_size shape))
                     (list_get shape ((i + 1) mod list_size shape)) in
      get_edges_loop shape fuel' (S i) (list_add edges vec)
  end.

Definition get_edges (shape : list vector_t) : list vector_t :=
  get_edges_loop shape (list_size shape) 0 list_init.

(** *** [get_max_min_projections] (collision.c, lines 38-53)

    One iteration of the loop updates the pair of locals [(min, max)]. *)
Definition proj_step (unit_axis : vector_t) (acc : D * D) (vertex : vector_t)
    : D * D :=
  let '(min, max) := acc in
  let proj := vec_dot vertex unit_axis in
  let min := if dlt proj min then proj else min in
  let max := if dgt proj max then proj else max in
  (min, max).

(** The result is the vector [(max, min)]: [x] holds the maximum. *)
Definition get_max_min_projections (shape : list vector_t)
    (unit_axis : vector_t) : vector_t :=
  let '(min, max) :=
    fold_left (proj_step unit_axis) shape (dbl_max, dopp dbl_max) in
  {| x := max; y := min |}.

(** *** [compare_collision] (collision.c, lines 65-91) *)

Record collision_info_t : Type :=
  mk_collision_info { axis : vector_t; collided : bool }.

(** Lines 71-72: the perpendicular of an edge and its normalisation. *)
Definition perp_axis_of (sep_axis : vector_t) : vector_t :=
  {| x := dmul (dopp d1) (y sep_axis); y := x sep_axis |}.

Definition unit_axis_of (sep_axis : vector_t) : vector_t :=
  let perp_axis := perp_axis_of sep_axis in
  vec_multiply (ddiv d1 (vec_get_length perp_axis)) perp_axis.

(** Line 75: the test that ends the loop. *)
Definition separated (proj_1 proj_2 : vector_t) : bool :=
  dge (y proj_2) (x proj_1) || dle (x proj_2) (y proj_1).

(** The test of line 75 for the normal of the edge [sep_axis]: whether
    [shape1], whose edge it is, and [shape2] are separated along it. *)
Definition separated_on (shape1 shape2 : list vector_t)
    (sep_axis : vector_t) : bool :=
  separated (get_max_min_projections shape1 (unit_axis_of sep_axis))
            (get_max_min_projections shape2 (unit_axis_of sep_axis)).

(** Line 79. *)
Definition overlap_of (proj_1 proj_2 : vector_t) : D :=
  dsub (dfmin (x proj_1) (x proj_2)) (dfmax (y proj_1) (y proj_2)).

(** The loop over [edges1]: [collision] is the local struct and
    [min_overlap] the double behind the pointer; both are returned, the
    second is what the caller reads back through the pointer. *)
Fixpoint compare_loop (shape1 shape2 : list vector_t) (edges : list vector_t)
    (collision : collision_info_t) (min_overlap : D)
    : collision_info_t * D :=
  match edges with
  | [] => ({| axis := axis collision; collided := true |}, min_overlap)
  | sep_axis :: rest =>
      let unit_axis := unit_axis_of sep_axis in
      let proj_1 := get_max_min_projections shape1 unit_axis in
      let proj_2 := get_max_min_projections shape2 unit_axis in
      if separated proj_1 proj_2 then (collision, min_overlap)
      else
        let overlap := overlap_of proj_1 proj_2 in
        if dlt overlap min_overlap
        then compare_loop shape1 shape2 rest
               {| axis := unit_axis; collided := collided collision |} overlap
        else compare_loop shape1 shape2 rest collision min_overlap
  end.

Definition compare_collision (shape1 shape2 : list vector_t) (min_overlap : D)
    : collision_info_t * D :=
  compare_loop shape1 shape2 (get_edges shape1)
    {| axis := VEC_ZERO; collided := false |} min_overlap.

(** *** Bodies

    Modelled from the spec: the body of body.c, "mutable entity with position,
    velocity, mass (a positive real or a sentinel infinite value meaning
    immovable), and a polygon"; [body_get_shape] returns a copy of the
    polygon. *)
Inductive mass_t : Type :=
  | Finite (m : D)
  | Infinite.

Record body_t : Type := mk_body {
  shape : list vector_t;
  velocity : vector_t;
  mass : mass_t;
  impulse : vector_t;           (* impulses accumulated in the current tick *)
  removed : bool                (* marked for removal *)
}.

Definition body_get_shape (body : body_t) : list vector_t := shape body.

(** *** [find_collision] (collision.c, lines 93-118) *)
Definition find_collision (body1 body2 : body_t) : collision_info_t :=
  let shape1 := body_get_shape body1 in
  let shape2 := body_get_shape body2 in
  let c1_overlap := dbl_max in
  let c2_overlap := dbl_max in
  let '(collision1, c1_overlap) := compare_collision shape1 shape2 c1_overlap in
  let '(collision2, c2_overlap) := compare_collision shape2 shape1 c2_overlap in
  if negb (collided collision1) then collision1
  else if negb (collided collision2) then collision2
  else if dlt c1_overlap c2_overlap then collision1
  else collision2.

(** *** The collision part of forces.c

    Only the declarations of forces.h are part of the sources; the bodies of
    the functions are modelled from the specification. *)

(** Modelled from the spec: [body_add_impulse] of body.c, "accumulate an
    impulse". *)
Definition body_add_impulse (body : body_t) (j : vector_t) : body_t :=
  {| shape := shape body; velocity := velocity body; mass := mass body;
     impulse := vec_add (impulse body) j; removed := removed body |}.

(** Modelled from the spec: [body_remove] of body.c, "mark for removal". *)
Definition body_remove (body : body_t) : body_t :=
  {| shape := shape body; velocity := velocity body; mass := mass body;
     impulse := impulse body; removed := true |}.

(** Modelled from the spec: the reduced mass of section 4.5, "if both masses
    finite, mu = (m1*m2)/(m1+m2); if one mass is infinite, mu equals the other
    (finite) mass; both infinite is not a supported configuration" (no
    value). *)
Definition reduced_mass (m1 m2 : mass_t) : option D :=
  match m1, m2 with
  | Finite a, Finite b => Some (ddiv (dmul a b) (dadd a b))
  | Finite a, Infinite => Some a
  | Infinite, Finite b => Some b
  | Infinite, Infinite => None
  end.

(** Modelled from the spec: "impulses applied only to finite-mass bodies;
    infinite-mass bodies are unaffected". *)
Definition impulse_to (body : body_t) (j : vector_t) : body_t :=
  match mass body with
  | Finite _ => body_add_impulse body j
  | Infinite => body
  end.

(** Modelled from the spec: [physics_collision_handler] of forces.c, section
    4.5: "v_rel = (vel1 - vel2) . axis"; no impulse when the bodies are not
    approaching (the axis points from body1 towards body2, forces.h line 55,
    so they approach when [v_rel] is positive); "J = mu * (1+e) * v_rel",
    "subtract J*axis from body1's momentum and add J*axis to body2's
    momentum".  [None] is the unsupported configuration of two infinite
    masses. *)
Definition relative_velocity (body1 body2 : body_t) (axis : vector_t) : D :=
  vec_dot (vec_subtract (velocity body1) (velocity body2)) axis.

Definition impulse_magnitude (mu elasticity v_rel : D) : D :=
  dmul (dmul mu (dadd d1 elasticity)) v_rel.

Definition physics_collision_handler (body1 body2 : body_t)
    (axis : vector_t) (elasticity : D) : option (body_t * body_t) :=
  let v_rel := relative_velocity body1 body2 axis in
  if dgt v_rel d0 then
    match reduced_mass (mass body1) (mass body2) with
    | Some mu =>
        let J := impulse_magnitude mu elasticity v_rel in
        Some (impulse_to body1 (vec_multiply (dopp J) axis),
              impulse_to body2 (vec_multiply J axis))
    | None => None
    end
  else Some (body1, body2).

(** Modelled from the spec: the handler of [create_destructive_collision],
    "marks both bodies for removal on first contact - no impulse math". *)
Definition destructive_collision_handler (body1 body2 : body_t)
    : body_t * body_t :=
  (body_remove body1, body_remove body2).

(** Modelled from the spec: the per-tick action registered by
    [create_collision] of forces.c, section 4.4: "if collided is true and the
    persisted contact flag was previously false, invoke handler(...) then set
    the flag true; if collided is false, clear the flag".  The tick receives
    the detector's result for the current positions of the two bodies and the
    persisted flag; it returns the handler call it makes, if any (the axis
    passed to the handler), and the new flag. *)
Definition collision_tick (info : collision_info_t) (colliding : bool)
    : option vector_t * bool :=
  if collided info then
    if colliding then (None, colliding) else (Some (axis info), true)
  else (None, false).

(** A run of ticks: the list of the handler calls made, tick by tick, and the
    flag at the end. *)
Fixpoint collision_run (infos : list collision_info_t) (colliding : bool)
    : list (option vector_t) * bool :=
  match infos with
  | [] => ([], colliding)
  | info :: rest =>
      let '(call, colliding') := collision_tick info colliding in
      let '(calls, final) := collision_run rest colliding' in
      (call :: calls, final)
  end.

(** The detector's verdict at tick [i], and the flag a tick finds: the
    initial one at the first tick, the verdict of the tick before afterwards. *)
Definition collided_at (infos : list collision_info_t) (i : nat) : bool :=
  match nth_error infos i with
  | Some info => collided info
  | None => false
  end.

Definition flag_before (infos : list collision_info_t) (init : bool)
    (i : nat) : bool :=
  match i with
  | O => init
  | S j => collided_at infos j
  end.

(** Tick [i] is the first of a contact episode. *)
Definition rising_edge (infos : list collision_info_t) (init : bool)
    (i : nat) : bool :=
  collided_at infos i && negb (flag_before infos init i).

(** Modelled from the spec: [create_collision] allocates the auxiliary with
    the flag cleared (the state "Idle" of section 9). *)
Definition create_collision_flag : bool := false.

(** The number of handler calls in a run. *)
Definition call_count (calls : list (option vector_t)) : nat :=
  length (filter (fun c => match c with Some _ => true | None => false end)
                 calls).

(** *** The shapes as the arithmetic of the code sees them *)

(** The projection of a vertex on the normalised normal of an edge, as line 43
    computes it. *)
Definition projection_on (sep_axis vertex : vector_t) : D :=
  vec_dot vertex (unit_axis_of sep_axis).

(** A value strictly between [-DBL_MAX] and [DBL_MAX], the initial values of
    the maximum and the minimum of lines 39-40. *)
Definition in_bounds (p : D) : bool :=
  dlt (dopp dbl_max) p && dlt p dbl_max.



(** The overlap that the pass over the edges of [shape1] computes for the
    normal of [sep_axis] (line 79). *)
Definition pass_overlap (shape1 shape2 : list vector_t) (sep_axis : vector_t)
    : D :=
  overlap_of (get_max_min_projections shape1 (unit_axis_of sep_axis))
             (get_max_min_projections shape2 (unit_axis_of sep_axis)).

(** The normalised edge normals of a shape, in the order of its edges. *)
Definition edge_normals (shape : list vector_t) : list vector_t :=
  map unit_axis_of (get_edges shape).

End Kernel.

Arguments vector_t D : clear implicits.
Arguments collision_info_t D : clear implicits.
Arguments mass_t D : clear implicits.
Arguments body_t D : clear implicits.

(** ** The arithmetic of the C code *)

(** IEEE binary64, the [double] of the C code. *)
Module Float64.

Import PrimFloat.

Definition fmin (a b : float) : float :=
  if PrimFloat.is_nan a then b
  else if PrimFloat.is_nan b then a
  else if PrimFloat.ltb a b then a else b.

Definition fmax (a b : float) : float :=
  if PrimFloat.is_nan a then b
  else if PrimFloat.is_nan b then a
  else if PrimFloat.ltb a b then b else a.

#[export] Instance float_Double : Double float := {|
  d0 := PrimFloat.zero;
  d1 := PrimFloat.one;
  dbl_max := 0x1.fffffffffffffp+1023%float;
  dopp := PrimFloat.opp;
  dadd := PrimFloat.add;
  dsub := PrimFloat.sub;
  dmul := PrimFloat.mul;
  ddiv := PrimFloat.div;
  dsqrt := PrimFloat.sqrt;
  dfmin := fmin;
  dfmax := fmax;
  dlt := PrimFloat.ltb;
  dle := PrimFloat.leb
|}.

(** Sample shapes and bodies. *)
Definition triangle : list (vector_t float) :=
  [ mk_vector 0 0; mk_vector 4 0; mk_vector 0 3 ]%float.

Definition fsquare (ox oy : float) : list (vector_t float) :=
  [ mk_vector ox oy; mk_vector (ox + 1) oy;
    mk_vector (ox + 1) (oy + 1); mk_vector ox (oy + 1) ]%float.

Definition fbody (shape : list (vector_t float)) (vx : float) (m : mass_t float)
    : body_t float :=
  {| shape := shape; velocity := mk_vector vx 0%float; mass := m;
     impulse := VEC_ZERO; removed := false |}.

Definition fshape (shape : list (vector_t float)) : body_t float :=
  fbody shape 0 (Finite 1%float).

(** A 3-4-5 triangle and a triangle just beyond its hypotenuse. *)
Definition near_triangle : list (vector_t float) :=
  [ mk_vector 0x1.4000000000001p-1 0x1.44p+1; mk_vector 9 3;
    mk_vector 4 7 ]%float.

(** A triangle in the corner (4, 0) of [triangle]. *)
Definition corner_triangle : list (vector_t float) :=
  [ mk_vector 0x1.fffffffffffffp+1 0x1.4p-52;
    mk_vector 0x1.fffffffffffffp+1 0x1.5p-52;
    mk_vector 0x1.ffffffffffffep+1 0x1.4p-52 ]%float.

(** Two triangles of size about 2^-562, the second one the first moved by
    2^-565 along x. *)
Definition tiny_triangle : list (vector_t float) :=
  [ mk_vector 0x1.4p-562 0x1.4p-562; mk_vector 0x1.cp-563 0x1.ap-562;
    mk_vector 0x1p-562 0x1.6p-562 ]%float.

Definition tiny_triangle' : list (vector_t float) :=
  [ mk_vector 0x1.6p-562 0x1.4p-562; mk_vector 0x1p-562 0x1.ap-562;
    mk_vector 0x1.2p-562 0x1.6p-562 ]%float.

(** Two right triangles with a diagonal edge. *)
Definition right_triangle : list (vector_t float) :=
  [ mk_vector 0 0; mk_vector 1 0; mk_vector 0 1 ]%float.

Definition right_triangle' : list (vector_t float) :=
  [ mk_vector 0.25 0.25; mk_vector 1.25 0.25; mk_vector 0.25 1.25 ]%float.

(** A large triangle and a small one inside it. *)
Definition outer_triangle : list (vector_t float) :=
  [ mk_vector 0 0; mk_vector 10 0; mk_vector 0 10 ]%float.

Definition inner_triangle : list (vector_t float) :=
  [ mk_vector 1 1; mk_vector 2 1; mk_vector 1 2 ]%float.

End Float64.

(** ** The order of the doubles

    The comparisons of binary64 are specified on [spec_float]; there they are
    the lexicographic order of a rank of three integers, NaN having none. *)
Module FloatOrder.

Import SpecFloat.

Local Open Scope Z_scope.

Definition rank (f : spec_float) : option (Z * Z * Z) :=
  match f with
  | S754_nan => None
  | S754_infinity true => Some (-2, 0, 0)
  | S754_infinity false => Some (2, 0, 0)
  | S754_zero _ => Some (0, 0, 0)
  | S754_finite true m e => Some (-1, - e, Zneg m)
  | S754_finite false m e => Some (1, e, Zpos m)
  end.

Definition lex_cmp (r1 r2 : Z * Z * Z) : comparison :=
  let '(a1, b1, c1) := r1 in
  let '(a2, b2, c2) := r2 in
  match a1 ?= a2 with
  | Eq => match b1 ?= b2 with
          | Eq => c1 ?= c2
          | c => c
          end
  | c => c
  end.

Definition lex_lt (r1 r2 : Z * Z * Z) : Prop :=
  let '(a1, b1, c1) := r1 in
  let '(a2, b2, c2) := r2 in
  a1 < a2 \/ (a1 = a2 /\ (b1 < b2 \/ (b1 = b2 /\ c1 < c2))).

Definition frank (f : PrimFloat.float) : option (Z * Z * Z) :=
  rank (FloatOps.Prim2SF f).

(** A double that is not NaN: C's [a <= a]. *)
Definition is_num (a : PrimFloat.float) : bool := PrimFloat.leb a a.

End FloatOrder.

(** ** The exact values of the coordinates

    A finite double is the rational [Fnum / Fden]; shapes with finite
    coordinates are polygons of the real plane. *)
Module Exact.

Import SpecFloat.

Definition finite (f : PrimFloat.float) : bool :=
  match FloatOps.Prim2SF f with
  | S754_zero _ | S754_finite _ _ _ => true
  | _ => false
  end.

Definition Fnum (f : PrimFloat.float) : Z :=
  match FloatOps.Prim2SF f with
  | S754_finite s m e =>
      let n := if s then Zneg m else Zpos m in
      match e with
      | Zpos p => (n * Z.pow_pos 2 p)%Z
      | _ => n
      end
  | _ => 0%Z
  end.

Definition Fden (f : PrimFloat.float) : Z :=
  match FloatOps.Prim2SF f with
  | S754_finite s m (Zneg p) => Z.pow_pos 2 p
  | _ => 1%Z
  end.

Definition F2R (f : PrimFloat.float) : R := (IZR (Fnum f) / IZR (Fden f))%R.

Record point : Type := mk_point { px : R; py : R }.

Definition exact_point (v : vector_t PrimFloat.float) : point :=
  {| px := F2R (x v); py := F2R (y v) |}.

Definition exact_shape (shape : list (vector_t PrimFloat.float))
    : list point :=
  map exact_point shape.

Definition finite_shape (shape : list (vector_t PrimFloat.float)) : bool :=
  forallb (fun v => finite (x v) && finite (y v)) shape.

Local Open Scope R_scope.

Definition vertex (shape : list point) (i : nat) : point :=
  nth i shape {| px := 0; py := 0 |}.

Definition next (shape : list point) (i : nat) : nat :=
  ((i + 1) mod length shape)%nat.

(** Twice the signed area of the triangle (vertex i, next vertex, p):
    positive when [p] is on the left of the directed edge. *)
Definition edge_side (shape : list point) (i : nat) (p : point) : R :=
  (px (vertex shape (next shape i)) - px (vertex shape i))
    * (py p - py (vertex shape i))
  - (py (vertex shape (next shape i)) - py (vertex shape i))
    * (px p - px (vertex shape i)).

(** The points of a counterclockwise convex polygon: on the left of, or on,
    every edge (the vertex-in-polygon test). *)
Definition in_polygon (shape : list point) (p : point) : Prop :=
  forall i, (i < length shape)%nat -> 0 <= edge_side shape i p.




(** No two consecutive vertices coincide: no edge of length zero. *)
Definition no_zero_edge (shape : list point) : Prop :=
  forall i, (i < length shape)%nat ->
    vertex shape i <> vertex shape (next shape i).

(** The square of the Euclidean length of a vector. *)
Definition exact_sq_length (v : vector_t PrimFloat.float) : R :=
  F2R (x v) * F2R (x v) + F2R (y v) * F2R (y v).

End Exact.

(** ** Properties that hold for every arithmetic *)

Section KernelFacts.

Context {D : Type} `{Double D}.

Lemma get_edges_loop_length (shape : list (vector_t D)) fuel i edges :
  length (get_edges_loop shape fuel i edges) = length edges + fuel.
Proof.
  revert i edges; induction fuel as [|fuel IH]; intros i edges; simpl.
  - lia.
  - rewrite IH. unfold list_add. rewrite length_app. simpl. lia.
Qed.

Lemma get_edges_loop_old (shape : list (vector_t D)) fuel i edges k d :
  k < length edges ->
  nth k (get_edges_loop shape fuel i edges) d = nth k edges d.
Proof.
  revert i edges; induction fuel as [|fuel IH]; intros i edges Hk; simpl.
  - reflexivity.
  - rewrite IH.
    + unfold list_add. now rewrite app_nth1.
    + unfold list_add. rewrite length_app. simpl. lia.
Qed.

Lemma get_edges_loop_new (shape : list (vector_t D)) fuel i edges k d :
  length edges = i -> i <= k < i + fuel ->
  nth k (get_edges_loop shape fuel i edges) d =
  vec_subtract (list_get shape (k mod list_size shape))
               (list_get shape ((k + 1) mod list_size shape)).
Proof.
  revert i edges; induction fuel as [|fuel IH]; intros i edges Hlen Hk; simpl.
  - lia.
  - destruct (Nat.eq_dec k i) as [->|Hne].
    + rewrite get_edges_loop_old.
      * unfold list_add. rewrite app_nth2 by lia.
        rewrite Hlen, Nat.sub_diag. reflexivity.
      * unfold list_add. rewrite length_app. simpl. lia.
    + apply IH.
      * unfold list_add. rewrite length_app. simpl. lia.
      * lia.
Qed.

Lemma get_edges_length (shape : list (vector_t D)) :
  length (get_edges shape) = length shape.
Proof. unfold get_edges. now rewrite get_edges_loop_length. Qed.

Lemma get_edges_nth (shape : list (vector_t D)) i :
  i < length shape ->
  nth i (get_edges shape) VEC_ZERO =
  vec_subtract (nth i shape VEC_ZERO)
               (nth ((i + 1) mod length shape) shape VEC_ZERO).
Proof.
  intros Hi. unfold get_edges. rewrite get_edges_loop_new with (i := 0).
  - unfold list_get, list_size. rewrite Nat.mod_small by lia. reflexivity.
  - reflexivity.
  - unfold list_size. lia.
Qed.

(** [list_get] is never called out of range by [get_edges]. *)
Lemma get_edges_index_ok (shape : list (vector_t D)) i :
  i < list_size shape ->
  i mod list_size shape < list_size shape /\
  (i + 1) mod list_size shape < list_size shape.
Proof.
  intros Hi. split; apply Nat.mod_upper_bound; lia.
Qed.

Lemma get_edges_In (shape : list (vector_t D)) e :
  In e (get_edges shape) <->
  exists i, i < length shape /\
    e = vec_subtract (nth i shape VEC_ZERO)
                     (nth ((i + 1) mod length shape) shape VEC_ZERO).
Proof.
  split.
  - intros Hin. apply (In_nth _ _ VEC_ZERO) in Hin as (i & Hi & <-).
    rewrite get_edges_length in Hi. exists i. split; [exact Hi|].
    now apply get_edges_nth.
  - intros (i & Hi & ->). rewrite <- get_edges_nth by exact Hi.
    apply nth_In. now rewrite get_edges_length.
Qed.

(** C9.  For every vertex list of N >= 3 vertices, [get_edges] returns
    exactly N edges, edge i being vertex i minus vertex (i+1) mod N, for every
    i in 0..N-1.  The vertex list is an immutable value of the embedding: the
    function only reads it. *)
Theorem get_edges_spec (shape : list (vector_t D)) :
  3 <= length shape ->
  length (get_edges shape) = length shape /\
  forall i, i < length shape ->
    nth i (get_edges shape) VEC_ZERO =
    vec_subtract (nth i shape VEC_ZERO)
                 (nth ((i + 1) mod length shape) shape VEC_ZERO).
Proof.
  intros HN. split.
  - apply get_edges_length.
  - intros i Hi. now apply get_edges_nth.
Qed.


(** *** The loop of [compare_collision] *)

Lemma compare_loop_collided (shape1 shape2 edges : list (vector_t D))
    collision min_overlap :
  collided (fst (compare_loop shape1 shape2 edges collision min_overlap)) =
  if existsb (separated_on shape1 shape2) edges
  then collided collision else true.
Proof.
  revert collision min_overlap.
  induction edges as [|e rest IH]; intros collision min_overlap; simpl.
  - reflexivity.
  - unfold separated_on at 1.
    destruct (separated _ _); simpl.
    + reflexivity.
    + destruct (dlt _ min_overlap); rewrite IH; reflexivity.
Qed.

Lemma compare_collision_collided (shape1 shape2 : list (vector_t D)) m :
  collided (fst (compare_collision shape1 shape2 m)) =
  negb (existsb (separated_on shape1 shape2) (get_edges shape1)).
Proof.
  unfold compare_collision. rewrite compare_loop_collided. simpl.
  now destruct (existsb _ _).
Qed.

(** The loop returns at the first separating edge: what comes after it is not
    looked at, and the result carries the axis and the minimum accumulated
    over the edges before it. *)
Lemma compare_loop_early_exit (shape1 shape2 pre post : list (vector_t D))
    e collision min_overlap :
  existsb (separated_on shape1 shape2) pre = false ->
  separated_on shape1 shape2 e = true ->
  compare_loop shape1 shape2 (pre ++ e :: post) collision min_overlap =
  ({| axis := axis (fst (compare_loop shape1 shape2 pre collision min_overlap));
      collided := collided collision |},
   snd (compare_loop shape1 shape2 pre collision min_overlap)).
Proof.
  revert collision min_overlap.
  induction pre as [|a pre IH]; intros collision min_overlap Hpre He; simpl.
  - unfold separated_on in He. rewrite He. now destruct collision.
  - simpl in Hpre. apply orb_false_iff in Hpre as [Ha Hpre].
    unfold separated_on in Ha. rewrite Ha.
    destruct (dlt _ min_overlap); rewrite IH by assumption; reflexivity.
Qed.

Lemma find_collision_collided (body1 body2 : body_t D) :
  collided (find_collision body1 body2) =
  collided (fst (compare_collision (shape body1) (shape body2) dbl_max)) &&
  collided (fst (compare_collision (shape body2) (shape body1) dbl_max)).
Proof.
  unfold find_collision, body_get_shape.
  destruct (compare_collision (shape body1) (shape body2) dbl_max)
    as [c1 o1] eqn:E1.
  destruct (compare_collision (shape body2) (shape body1) dbl_max)
    as [c2 o2] eqn:E2.
  simpl.
  destruct (collided c1) eqn:H1; simpl; [|now rewrite H1].
  destruct (collided c2) eqn:H2; simpl; [|now rewrite H2].
  destruct (dlt o1 o2); congruence.
Qed.

(** The second pass wins whenever the first minimum is not smaller. *)
Lemma find_collision_second (body1 body2 : body_t D) c1 o1 c2 o2 :
  compare_collision (shape body1) (shape body2) dbl_max = (c1, o1) ->
  compare_collision (shape body2) (shape body1) dbl_max = (c2, o2) ->
  collided c1 = true -> collided c2 = true -> dlt o1 o2 = false ->
  find_collision body1 body2 = c2.
Proof.
  intros E1 E2 H1 H2 Hlt. unfold find_collision, body_get_shape.
  rewrite E1, E2, H1, H2, Hlt. reflexivity.
Qed.

Lemma find_collision_first (body1 body2 : body_t D) c1 o1 c2 o2 :
  compare_collision (shape body1) (shape body2) dbl_max = (c1, o1) ->
  compare_collision (shape body2) (shape body1) dbl_max = (c2, o2) ->
  collided c1 = true -> collided c2 = true -> dlt o1 o2 = true ->
  find_collision body1 body2 = c1.
Proof.
  intros E1 E2 H1 H2 Hlt. unfold find_collision, body_get_shape.
  rewrite E1, E2, H1, H2, Hlt. reflexivity.
Qed.

(** C6.  If the projections of the two shapes are separated along the
    normalised normal of some edge of either shape (minB >= maxA or
    maxB <= minA, A being the shape whose edge it is), [find_collision]
    returns collided = false; and a pass of [compare_collision] stops at the
    first such edge: its result is the same whatever edges follow it. *)
Theorem separation_early_exit (body1 body2 : body_t D) :
  (exists e, In e (get_edges (shape body1)) /\
             separated_on (shape body1) (shape body2) e = true) \/
  (exists e, In e (get_edges (shape body2)) /\
             separated_on (shape body2) (shape body1) e = true) ->
  collided (find_collision body1 body2) = false /\
  forall (shapeA shapeB pre post post' : list (vector_t D)) e collision m,
    existsb (separated_on shapeA shapeB) pre = false ->
    separated_on shapeA shapeB e = true ->
    compare_loop shapeA shapeB (pre ++ e :: post) collision m =
    compare_loop shapeA shapeB (pre ++ e :: post') collision m /\
    collided (fst (compare_loop shapeA shapeB (pre ++ e :: post)
                     {| axis := VEC_ZERO; collided := false |} m)) = false.
Proof.
  intros Hsep. split.
  - rewrite find_collision_collided, !compare_collision_collided.
    destruct Hsep as [(e & Hin & He)|(e & Hin & He)].
    + replace (existsb _ (get_edges (shape body1))) with true; [reflexivity|].
      symmetry. apply existsb_exists. now exists e.
    + replace (existsb _ (get_edges (shape body2))) with true;
        [apply andb_false_r|].
      symmetry. apply existsb_exists. now exists e.
  - intros shapeA shapeB pre post post' e collision m Hpre He. split.
    + now rewrite !compare_loop_early_exit.
    + now rewrite compare_loop_early_exit.
Qed.

(** C7.  [find_collision] gives the same collided flag for (A, B) and for
    (B, A). *)
Theorem find_collision_symmetric (body1 body2 : body_t D) :
  collided (find_collision body1 body2) =
  collided (find_collision body2 body1).
Proof.
  rewrite !find_collision_collided. apply andb_comm.
Qed.

(** *** The verdict of [find_collision] *)

(** X1.  [find_collision] reports a collision exactly when the test of line
    75 fails for the normal of every edge of both shapes. *)
Theorem find_collision_verdict (body1 body2 : body_t D) :
  collided (find_collision body1 body2) =
  negb (existsb (separated_on (shape body1) (shape body2))
          (get_edges (shape body1))) &&
  negb (existsb (separated_on (shape body2) (shape body1))
          (get_edges (shape body2))).
Proof.
  now rewrite find_collision_collided, !compare_collision_collided.
Qed.

(** X2.  Two bodies with empty shapes are reported as colliding, with the
    zero axis: no edge is there to separate them. *)
Theorem find_collision_empty (body1 body2 : body_t D) :
  shape body1 = [] -> shape body2 = [] ->
  find_collision body1 body2 = {| axis := VEC_ZERO; collided := true |}.
Proof.
  intros E1 E2. unfold find_collision, body_get_shape. rewrite E1, E2.
  cbn. now destruct (dlt dbl_max dbl_max).
Qed.

(** A pass that finds no separating edge returns with the flag set; one that
    finds a separating edge returns the flag it started with, false. *)
Theorem compare_collision_verdict (shape1 shape2 : list (vector_t D)) m :
  collided (fst (compare_collision shape1 shape2 m)) = true <->
  forall e, In e (get_edges shape1) -> separated_on shape1 shape2 e = false.
Proof.
  rewrite compare_collision_collided, negb_true_iff. split.
  - intros Hex e He. destruct (separated_on shape1 shape2 e) eqn:E;
      [|reflexivity].
    assert (existsb (separated_on shape1 shape2) (get_edges shape1) = true)
      by (apply existsb_exists; now exists e).
    congruence.
  - intros Hall. destruct (existsb _ _) eqn:E; [|reflexivity].
    apply existsb_exists in E as (e & He & Hs). rewrite (Hall e He) in Hs.
    discriminate.
Qed.

(** *** Collision wiring *)

Lemma collision_tick_flag (info : collision_info_t D) colliding :
  snd (collision_tick info colliding) = collided info.
Proof.
  unfold collision_tick. destruct (collided info), colliding; reflexivity.
Qed.

Lemma collision_tick_call (info : collision_info_t D) colliding :
  fst (collision_tick info colliding) =
  if collided info && negb colliding then Some (axis info) else None.
Proof.
  unfold collision_tick. destruct (collided info), colliding; reflexivity.
Qed.

Lemma collision_run_cons (info : collision_info_t D) rest colliding :
  collision_run (info :: rest) colliding =
  (fst (collision_tick info colliding)
     :: fst (collision_run rest (collided info)),
   snd (collision_run rest (collided info))).
Proof.
  cbn [collision_run].
  pose proof (collision_tick_flag info colliding) as Hf.
  destruct (collision_tick info colliding) as [call flag']. simpl in Hf.
  subst flag'. now destruct (collision_run rest (collided info)).
Qed.

Lemma collision_run_nth (infos : list (collision_info_t D)) init i :
  nth i (fst (collision_run infos init)) None =
  if rising_edge infos init i
  then option_map (@axis D) (nth_error infos i) else None.
Proof.
  revert init i. induction infos as [|info rest IH]; intros init i.
  - unfold rising_edge, collided_at. destruct i; reflexivity.
  - rewrite collision_run_cons. cbn [fst]. destruct i as [|i].
    + cbn [nth]. rewrite collision_tick_call.
      unfold rising_edge, collided_at, flag_before. cbn [nth_error].
      now destruct (collided info && negb init).
    + cbn [nth]. rewrite IH.
      unfold rising_edge, collided_at, flag_before. cbn [nth_error].
      destruct i; reflexivity.
Qed.

Lemma collision_run_length (infos : list (collision_info_t D)) init :
  length (fst (collision_run infos init)) = length infos.
Proof.
  revert init. induction infos as [|info rest IH]; intros init.
  - reflexivity.
  - rewrite collision_run_cons. simpl. now rewrite IH.
Qed.

Lemma collision_run_flag (infos : list (collision_info_t D)) init :
  snd (collision_run infos init) = flag_before infos init (length infos).
Proof.
  revert init. induction infos as [|info rest IH]; intros init.
  - reflexivity.
  - rewrite collision_run_cons. cbn [snd]. rewrite IH.
    unfold flag_before, collided_at. cbn [length].
    destruct (length rest); reflexivity.
Qed.

(** During a contact episode of [n + 1] ticks that starts with the flag
    cleared, the handler is called at the first tick and at no other. *)
Lemma collision_run_episode (info : collision_info_t D) episode :
  collided info = true ->
  Forall (fun i => collided i = true) episode ->
  collision_run (info :: episode) false =
  (Some (axis info) :: repeat None (length episode), true).
Proof.
  intros Hc Hall. rewrite collision_run_cons, collision_tick_call, Hc.
  cbn [andb negb].
  assert (Hrest : collision_run episode true =
                  (repeat None (length episode), true)).
  { induction Hall as [|i l Hi Hl IH]; [reflexivity|].
    rewrite collision_run_cons, collision_tick_call, Hi, IH. reflexivity. }
  now rewrite Hrest.
Qed.

(** C3.  Over every sequence of ticks, the handler registered by
    [create_collision] is called at a tick exactly when the detector reports
    a collision and the flag was cleared - at the first tick, or after a tick
    without collision -, with the axis of that tick; the flag left by a tick
    is the verdict of the detector; so each contact episode gets one call, at
    its first tick. *)
Theorem collision_debounce (infos : list (collision_info_t D)) :
  let calls := fst (collision_run infos create_collision_flag) in
  length calls = length infos /\
  (forall i, nth i calls None =
     if rising_edge infos create_collision_flag i
     then option_map (@axis D) (nth_error infos i) else None) /\
  snd (collision_run infos create_collision_flag) =
    flag_before infos create_collision_flag (length infos) /\
  (forall pre info episode post,
     infos = pre ++ info :: episode ++ post ->
     snd (collision_run pre create_collision_flag) = false ->
     collided info = true ->
     Forall (fun i => collided i = true) episode ->
     firstn (S (length episode)) (skipn (length pre) calls) =
     Some (axis info) :: repeat None (length episode)).
Proof.
  cbv zeta. split; [apply collision_run_length|].
  split; [intros i; apply collision_run_nth|].
  split; [apply collision_run_flag|].
  intros pre info episode post -> Hpre Hc Hall.
  assert (Happ : forall (l1 l2 : list (collision_info_t D)) init,
            fst (collision_run (l1 ++ l2) init) =
            fst (collision_run l1 init) ++
            fst (collision_run l2 (snd (collision_run l1 init)))).
  { induction l1 as [|a l1 IH]; intros l2 init; [reflexivity|].
    cbn [app]. rewrite !collision_run_cons. cbn [fst snd app].
    now rewrite IH. }
  rewrite Happ, Hpre.
  rewrite skipn_app, collision_run_length, Nat.sub_diag.
  rewrite skipn_all2 by (rewrite collision_run_length; lia).
  cbn [skipn app].
  change (info :: episode ++ post) with ((info :: episode) ++ post).
  rewrite Happ, collision_run_episode by assumption. cbn [fst snd].
  rewrite firstn_app. cbn [length]. rewrite repeat_length, Nat.sub_diag.
  cbn [firstn]. rewrite app_nil_r.
  rewrite firstn_all2 by (rewrite repeat_length; lia). reflexivity.
Qed.

(** *** Physics collisions *)

(** C4.  When the relative velocity along the axis says that the bodies
    approach, [physics_collision_handler] applies the impulse of magnitude
    J = mu * (1 + e) * v_rel along the axis, -J * axis to body1 and J * axis
    to body2, with mu = m1 * m2 / (m1 + m2) for two finite masses and mu the
    finite mass when the other is infinite; a body of infinite mass is left
    as it is. *)
Theorem physics_impulse_formula (body1 body2 : body_t D) (ax : vector_t D)
    (e : D) :
  dgt (relative_velocity body1 body2 ax) d0 = true ->
  let v_rel := relative_velocity body1 body2 ax in
  match mass body1, mass body2 with
  | Finite m1, Finite m2 =>
      let J := dmul (dmul (ddiv (dmul m1 m2) (dadd m1 m2)) (dadd d1 e)) v_rel in
      physics_collision_handler body1 body2 ax e =
      Some (body_add_impulse body1 (vec_multiply (dopp J) ax),
            body_add_impulse body2 (vec_multiply J ax))
  | Finite m1, Infinite =>
      let J := dmul (dmul m1 (dadd d1 e)) v_rel in
      physics_collision_handler body1 body2 ax e =
      Some (body_add_impulse body1 (vec_multiply (dopp J) ax), body2)
  | Infinite, Finite m2 =>
      let J := dmul (dmul m2 (dadd d1 e)) v_rel in
      physics_collision_handler body1 body2 ax e =
      Some (body1, body_add_impulse body2 (vec_multiply J ax))
  | Infinite, Infinite =>
      physics_collision_handler body1 body2 ax e = None
  end.
Proof.
  intros Happ. unfold physics_collision_handler, impulse_to, impulse_magnitude.
  rewrite Happ.
  destruct (mass body1) as [m1|], (mass body2) as [m2|]; reflexivity.
Qed.

(** *** The axis of the result *)




(** The extreme projections are the initial values or projections of
    vertices. *)
Lemma proj_fold_attained (shape : list (vector_t D)) (u : vector_t D) mn mx :
  (fst (fold_left (proj_step u) shape (mn, mx)) = mn \/
   exists v, In v shape /\
     fst (fold_left (proj_step u) shape (mn, mx)) = vec_dot v u) /\
  (snd (fold_left (proj_step u) shape (mn, mx)) = mx \/
   exists v, In v shape /\
     snd (fold_left (proj_step u) shape (mn, mx)) = vec_dot v u).
Proof.
  revert mn mx. induction shape as [|a shape IH]; intros mn mx.
  - split; now left.
  - cbn [fold_left].
    set (mn1 := if dlt (vec_dot a u) mn then vec_dot a u else mn).
    set (mx1 := if dgt (vec_dot a u) mx then vec_dot a u else mx).
    change (proj_step u (mn, mx) a) with (mn1, mx1).
    assert (Hmn : mn1 = mn \/ mn1 = vec_dot a u)
      by (unfold mn1; destruct (dlt (vec_dot a u) mn); auto).
    assert (Hmx : mx1 = mx \/ mx1 = vec_dot a u)
      by (unfold mx1; destruct (dgt (vec_dot a u) mx); auto).
    destruct (IH mn1 mx1) as [H1 H2]. split.
    + destruct H1 as [E1|(v & Hv & E1)].
      * rewrite E1. destruct Hmn as [E|E]; [now left|right].
        exists a. split; [now left|exact E].
      * right. exists v. split; [now right|exact E1].
    + destruct H2 as [E2|(v & Hv & E2)].
      * rewrite E2. destruct Hmx as [E|E]; [now left|right].
        exists a. split; [now left|exact E].
      * right. exists v. split; [now right|exact E2].
Qed.

Lemma projections_fold (shape : list (vector_t D)) (u : vector_t D) :
  get_max_min_projections shape u =
  {| x := snd (fold_left (proj_step u) shape (dbl_max, dopp dbl_max));
     y := fst (fold_left (proj_step u) shape (dbl_max, dopp dbl_max)) |}.
Proof.
  unfold get_max_min_projections. now destruct (fold_left _ _ _).
Qed.

End KernelFacts.

(** ** The order of the doubles: laws *)

Unset Implicit Arguments.

Module FloatOrderFacts.

Import SpecFloat.
Import FloatOrder.

Local Open Scope Z_scope.

Lemma SFcompare_rank (f1 f2 : spec_float) :
  SFcompare f1 f2 =
  match rank f1, rank f2 with
  | Some r1, Some r2 => Some (lex_cmp r1 r2)
  | _, _ => None
  end.
Proof.
  destruct f1 as [s1|s1| |s1 m1 e1], f2 as [s2|s2| |s2 m2 e2];
    try destruct s1; try destruct s2; try reflexivity.
  cbn [SFcompare rank lex_cmp].
  change (-1 ?= -1) with Eq. cbv iota.
  rewrite Z.compare_opp, (Z.compare_antisym e1 e2).
  destruct (e1 ?= e2); reflexivity.
Qed.

Lemma lex_cmp_spec (r1 r2 : Z * Z * Z) :
  CompareSpec (r1 = r2) (lex_lt r1 r2) (lex_lt r2 r1) (lex_cmp r1 r2).
Proof.
  destruct r1 as [[a1 b1] c1], r2 as [[a2 b2] c2]. unfold lex_cmp, lex_lt.
  destruct (Z.compare_spec a1 a2); [|constructor; lia|constructor; lia].
  destruct (Z.compare_spec b1 b2); [|constructor; lia|constructor; lia].
  destruct (Z.compare_spec c1 c2); constructor; try lia. congruence.
Qed.

Ltac lex :=
  repeat match goal with
  | H : lex_lt _ _ \/ _ = _ |- _ => destruct H as [H|H]; [|subst]
  end;
  try match goal with
  | |- lex_lt ?a ?b \/ ?a = ?b =>
      destruct (lex_cmp_spec a b) as [?|?|?]; [now right|now left|exfalso]
  end;
  repeat match goal with
  | r : (Z * Z * Z)%type |- _ => destruct r as [[? ?] ?]
  end;
  unfold lex_lt in *;
  repeat match goal with
  | H : (_, _, _) = (_, _, _) |- _ => injection H as H; intros
  end;
  try lia.

Lemma ltb_rank (a b : PrimFloat.float) :
  PrimFloat.ltb a b = true <->
  exists r1 r2, frank a = Some r1 /\ frank b = Some r2 /\ lex_lt r1 r2.
Proof.
  rewrite FloatAxioms.ltb_spec. unfold SFltb, frank. rewrite SFcompare_rank.
  destruct (rank (FloatOps.Prim2SF a)) as [r1|], (rank (FloatOps.Prim2SF b)) as [r2|];
    try (split; [discriminate|intros (? & ? & ? & ? & ?); discriminate]).
  destruct (lex_cmp_spec r1 r2) as [E|L|G]; split; try discriminate.
  - intros (x & y & E1 & E2 & L). injection E1 as E1. injection E2 as E2.
    subst. lex.
  - intros _. now exists r1, r2.
  - reflexivity.
  - intros (x & y & E1 & E2 & L). injection E1 as E1. injection E2 as E2.
    subst. lex.
Qed.

Lemma leb_rank (a b : PrimFloat.float) :
  PrimFloat.leb a b = true <->
  exists r1 r2, frank a = Some r1 /\ frank b = Some r2 /\
                (lex_lt r1 r2 \/ r1 = r2).
Proof.
  rewrite FloatAxioms.leb_spec. unfold SFleb, frank. rewrite SFcompare_rank.
  destruct (rank (FloatOps.Prim2SF a)) as [r1|], (rank (FloatOps.Prim2SF b)) as [r2|];
    try (split; [discriminate|intros (? & ? & ? & ? & ?); discriminate]).
  destruct (lex_cmp_spec r1 r2) as [E|L|G]; split; try discriminate.
  - intros _. exists r1, r2. auto.
  - reflexivity.
  - intros _. exists r1, r2. auto.
  - reflexivity.
  - intros (x & y & E1 & E2 & [L|E]); injection E1 as E1;
      injection E2 as E2; subst; lex.
Qed.

Lemma eqb_rank (a b : PrimFloat.float) :
  PrimFloat.eqb a b = true <->
  exists r, frank a = Some r /\ frank b = Some r.
Proof.
  rewrite FloatAxioms.eqb_spec. unfold SFeqb, frank. rewrite SFcompare_rank.
  destruct (rank (FloatOps.Prim2SF a)) as [r1|], (rank (FloatOps.Prim2SF b)) as [r2|];
    try (split; [discriminate|intros (? & ? & ?); discriminate]).
  destruct (lex_cmp_spec r1 r2) as [E|L|G]; split; try discriminate.
  - intros _. exists r1. now subst.
  - reflexivity.
  - intros (x & E1 & E2). injection E1 as E1. injection E2 as E2. subst. lex.
  - intros (x & E1 & E2). injection E1 as E1. injection E2 as E2. subst. lex.
Qed.


Ltac ranks :=
  repeat match goal with
  | H : PrimFloat.ltb _ _ = true |- _ =>
      apply ltb_rank in H; destruct H as (? & ? & ? & ? & ?)
  | H : PrimFloat.leb _ _ = true |- _ =>
      apply leb_rank in H; destruct H as (? & ? & ? & ? & ?)
  | H : PrimFloat.eqb _ _ = true |- _ =>
      apply eqb_rank in H; destruct H as (? & ? & ?)
  | H : is_num _ = true |- _ =>
      unfold is_num in H
  end;
  repeat match goal with
  | H1 : frank ?a = Some ?r1, H2 : frank ?a = Some ?r2 |- _ =>
      rewrite H1 in H2; injection H2 as H2; subst
  end.

Lemma ltb_false_rank (a b : PrimFloat.float) r1 r2 :
  frank a = Some r1 -> frank b = Some r2 ->
  PrimFloat.ltb a b = false -> lex_lt r2 r1 \/ r1 = r2.
Proof.
  intros Ha Hb Hf.
  destruct (lex_cmp_spec r1 r2) as [E|L|G]; [now right| |now left].
  assert (PrimFloat.ltb a b = true) by (apply ltb_rank; now exists r1, r2).
  congruence.
Qed.

Lemma ltb_irrefl (a : PrimFloat.float) : PrimFloat.ltb a a = false.
Proof.
  destruct (PrimFloat.ltb a a) eqn:E; [|reflexivity]. ranks. lex.
Qed.

Lemma ltb_trans (a b c : PrimFloat.float) :
  PrimFloat.ltb a b = true -> PrimFloat.ltb b c = true ->
  PrimFloat.ltb a c = true.
Proof.
  intros H1 H2. ranks. apply ltb_rank. do 2 eexists.
  split; [eassumption|]. split; [eassumption|]. lex.
Qed.

Lemma ltb_leb_trans (a b c : PrimFloat.float) :
  PrimFloat.ltb a b = true -> PrimFloat.leb b c = true ->
  PrimFloat.ltb a c = true.
Proof.
  intros H1 H2. ranks. apply ltb_rank. do 2 eexists.
  split; [eassumption|]. split; [eassumption|].
  lex.
Qed.

Lemma leb_ltb_trans (a b c : PrimFloat.float) :
  PrimFloat.leb a b = true -> PrimFloat.ltb b c = true ->
  PrimFloat.ltb a c = true.
Proof.
  intros H1 H2. ranks. apply ltb_rank. do 2 eexists.
  split; [eassumption|]. split; [eassumption|].
  lex.
Qed.

Lemma leb_trans (a b c : PrimFloat.float) :
  PrimFloat.leb a b = true -> PrimFloat.leb b c = true ->
  PrimFloat.leb a c = true.
Proof.
  intros H1 H2. ranks. apply leb_rank. do 2 eexists.
  split; [eassumption|]. split; [eassumption|].
  lex.
Qed.

Lemma ltb_leb (a b : PrimFloat.float) :
  PrimFloat.ltb a b = true -> PrimFloat.leb a b = true.
Proof.
  intros H1. ranks. apply leb_rank. do 2 eexists.
  split; [eassumption|]. split; [eassumption|]. now left.
Qed.

Lemma leb_not_ltb (a b : PrimFloat.float) :
  PrimFloat.leb a b = true -> PrimFloat.ltb b a = false.
Proof.
  intros H1. destruct (PrimFloat.ltb b a) eqn:E; [|reflexivity].
  ranks. lex.
Qed.


Lemma ltb_num (a b : PrimFloat.float) :
  PrimFloat.ltb a b = true -> is_num a = true /\ is_num b = true.
Proof.
  intros H1. ranks. split; apply leb_rank; do 2 eexists;
    (split; [eassumption|]); (split; [eassumption|]); now right.
Qed.

Lemma leb_num (a b : PrimFloat.float) :
  PrimFloat.leb a b = true -> is_num a = true /\ is_num b = true.
Proof.
  intros H1. ranks. split; apply leb_rank; do 2 eexists;
    (split; [eassumption|]); (split; [eassumption|]); now right.
Qed.

Lemma is_num_rank (a : PrimFloat.float) :
  is_num a = true -> exists r, frank a = Some r.
Proof. intros H. ranks. eauto. Qed.

(** Two numbers are comparable. *)
Lemma leb_total (a b : PrimFloat.float) :
  is_num a = true -> is_num b = true ->
  PrimFloat.ltb a b = false -> PrimFloat.leb b a = true.
Proof.
  intros Ha Hb Hf. apply is_num_rank in Ha as (r1 & Ha).
  apply is_num_rank in Hb as (r2 & Hb).
  destruct (ltb_false_rank a b r1 r2 Ha Hb Hf) as [L|E];
    apply leb_rank; exists r2, r1; auto.
Qed.

Lemma ltb_cotrans (a b c : PrimFloat.float) :
  PrimFloat.ltb a c = true -> is_num b = true ->
  PrimFloat.ltb a b = true \/ PrimFloat.ltb b c = true.
Proof.
  intros H1 Hb. apply is_num_rank in Hb as (rb & Hb).
  apply ltb_rank in H1 as (ra & rc & Ha & Hc & L).
  destruct (lex_cmp_spec ra rb) as [E|L'|G].
  - subst. right. apply ltb_rank. eauto.
  - left. apply ltb_rank. eauto.
  - right. apply ltb_rank. exists rb, rc. repeat split; try assumption. lex.
Qed.


End FloatOrderFacts.

(** ** Properties in the arithmetic of the doubles *)

Module Float64Facts.

Import PrimFloat.
Import Float64.
Import FloatOrder.
Import FloatOrderFacts.

Local Open Scope float_scope.

Ltac fsimp :=
  unfold dgt, dge in *;
  cbn [dlt dle dbl_max dopp float_Double] in *.

Lemma dbl_max_num : is_num dbl_max = true.
Proof. reflexivity. Qed.

Lemma neg_dbl_max_num : is_num (dopp dbl_max) = true.
Proof. reflexivity. Qed.


(** *** Projections *)

Lemma proj_fold_order (shape : list (vector_t float)) (u : vector_t float)
    (mn mx : float) :
  is_num mn = true -> is_num mx = true ->
  let r := fold_left (proj_step u) shape (mn, mx) in
  is_num (fst r) = true /\ is_num (snd r) = true /\
  (fst r <=? mn) = true /\ (mx <=? snd r) = true /\
  forall v, In v shape -> is_num (vec_dot v u) = true ->
    (fst r <=? vec_dot v u) = true /\ (vec_dot v u <=? snd r) = true.
Proof.
  revert mn mx. induction shape as [|a shape IH]; intros mn mx Hmn Hmx.
  - cbn [fold_left fst snd]. split; [exact Hmn|]. split; [exact Hmx|].
    split; [exact Hmn|]. split; [exact Hmx|]. intros v [].
  - cbn [fold_left].
    set (p := vec_dot a u).
    set (mn1 := if dlt p mn then p else mn).
    set (mx1 := if dgt p mx then p else mx).
    change (proj_step u (mn, mx) a) with (mn1, mx1).
    assert (H1 : is_num mn1 = true /\ (mn1 <=? mn) = true /\
                 (is_num p = true -> (mn1 <=? p) = true)).
    { unfold mn1. fsimp. destruct (p <? mn) eqn:E.
      - destruct (ltb_num _ _ E) as [Hp _].
        repeat split; [exact Hp|now apply ltb_leb|auto].
      - repeat split; [exact Hmn|exact Hmn|].
        intros Hp. now apply leb_total. }
    assert (H2 : is_num mx1 = true /\ (mx <=? mx1) = true /\
                 (is_num p = true -> (p <=? mx1) = true)).
    { unfold mx1. fsimp. destruct (mx <? p) eqn:E.
      - destruct (ltb_num _ _ E) as [_ Hp].
        repeat split; [exact Hp|now apply ltb_leb|auto].
      - repeat split; [exact Hmx|exact Hmx|].
        intros Hp. now apply leb_total. }
    destruct H1 as (N1 & L1 & P1), H2 as (N2 & L2 & P2).
    destruct (IH mn1 mx1 N1 N2) as (I1 & I2 & I3 & I4 & I5).
    cbv zeta. split; [exact I1|]. split; [exact I2|].
    split; [now apply leb_trans with mn1|].
    split; [now apply leb_trans with mx1|].
    intros v [<-|Hin] Hnum.
    + split.
      * apply leb_trans with mn1; [exact I3|now apply P1].
      * apply leb_trans with mx1; [now apply P2|exact I4].
    + now apply I5.
Qed.

(** The extremes bracket every projection that is a number. *)
Lemma projections_bounds (shape : list (vector_t float))
    (u v : vector_t float) :
  In v shape -> is_num (vec_dot v u) = true ->
  (y (get_max_min_projections shape u) <=? vec_dot v u) = true /\
  (vec_dot v u <=? x (get_max_min_projections shape u)) = true.
Proof.
  intros Hin Hnum. rewrite projections_fold. cbn [x y].
  destruct (proj_fold_order shape u dbl_max (dopp dbl_max)
              dbl_max_num neg_dbl_max_num) as (_ & _ & _ & _ & H).
  now apply H.
Qed.

(** X4.  For every shape and axis, the minimum computed by
    [get_max_min_projections] is at or below, and the maximum at or above,
    the computed projection of every vertex, provided that projection is a
    number (a NaN is skipped by both comparisons of the loop). *)
Theorem projections_bracket (shape : list (vector_t float))
    (u v : vector_t float) :
  In v shape -> is_num (vec_dot v u) = true ->
  (y (get_max_min_projections shape u) <=? vec_dot v u) = true /\
  (vec_dot v u <=? x (get_max_min_projections shape u)) = true.
Proof.
  intros Hin Hnum. rewrite projections_fold. cbn [x y].
  destruct (proj_fold_order shape u dbl_max (dopp dbl_max)
              dbl_max_num neg_dbl_max_num) as (_ & _ & _ & _ & H).
  now apply H.
Qed.

Lemma projections_num (shape : list (vector_t float)) (u : vector_t float) :
  is_num (x (get_max_min_projections shape u)) = true /\
  is_num (y (get_max_min_projections shape u)) = true.
Proof.
  rewrite projections_fold. cbn [x y].
  destruct (proj_fold_order shape u dbl_max (dopp dbl_max)
              dbl_max_num neg_dbl_max_num) as (H1 & H2 & _).
  now split.
Qed.

Lemma in_bounds_num (p : float) :
  in_bounds p = true ->
  is_num p = true /\ (dopp dbl_max <? p) = true /\ (p <? dbl_max) = true.
Proof.
  unfold in_bounds. fsimp. intros H. apply andb_true_iff in H as [H1 H2].
  destruct (ltb_num _ _ H2) as [Hp _]. now repeat split.
Qed.

(** With all projections in bounds, the extremes of a non-empty shape are
    projections of vertices. *)
Lemma projections_attained (shape : list (vector_t float))
    (u : vector_t float) :
  shape <> [] ->
  (forall v, In v shape -> in_bounds (vec_dot v u) = true) ->
  (exists a, In a shape /\ x (get_max_min_projections shape u) = vec_dot a u)
  /\
  (exists b, In b shape /\ y (get_max_min_projections shape u) = vec_dot b u).
Proof.
  intros Hne Hb.
  destruct shape as [|v0 rest]; [now elim Hne|].
  set (shape := v0 :: rest) in *.
  assert (Hv0 : In v0 shape) by now left.
  destruct (in_bounds_num _ (Hb v0 Hv0)) as (N0 & Lo & Hi).
  destruct (projections_bounds shape u v0 Hv0 N0) as [Bmin Bmax].
  rewrite projections_fold in *. cbn [x y] in *.
  destruct (proj_fold_attained shape u dbl_max (dopp dbl_max))
    as [[E1|A1] [E2|A2]].
  - exfalso. rewrite E2 in Bmax.
    pose proof (ltb_leb_trans _ _ _ Lo Bmax) as C.
    now rewrite ltb_irrefl in C.
  - exfalso. rewrite E1 in Bmin.
    pose proof (leb_ltb_trans _ _ _ Bmin Hi) as C.
    now rewrite ltb_irrefl in C.
  - exfalso. rewrite E2 in Bmax.
    pose proof (ltb_leb_trans _ _ _ Lo Bmax) as C.
    now rewrite ltb_irrefl in C.
  - split; assumption.
Qed.

(** *** The separation test, from the vertices *)





(** *** The running minimum of [compare_collision] *)

Lemma compare_loop_min (shape1 shape2 edges : list (vector_t float))
    (collision : collision_info_t float) (m : float) :
  is_num m = true ->
  existsb (separated_on shape1 shape2) edges = false ->
  let r := compare_loop shape1 shape2 edges collision m in
  is_num (snd r) = true /\ (snd r <=? m) = true /\
  (forall e, In e edges -> (pass_overlap shape1 shape2 e <? snd r) = false) /\
  ((snd r = m /\ axis (fst r) = axis collision) \/
   ((snd r <? m) = true /\
    exists e, In e edges /\ axis (fst r) = unit_axis_of e /\
              snd r = pass_overlap shape1 shape2 e)).
Proof.
  revert collision m.
  induction edges as [|e rest IH]; intros collision m Hm Hsep.
  - cbn. split; [exact Hm|]. split; [exact Hm|]. split; [intros e []|].
    now left.
  - cbn [existsb] in Hsep. apply orb_false_iff in Hsep as [He Hrest].
    cbn [compare_loop]. unfold separated_on in He. rewrite He.
    fold (pass_overlap shape1 shape2 e).
    set (ov := pass_overlap shape1 shape2 e).
    cbn [dlt float_Double].
    destruct (ov <? m) eqn:Hlt.
    + destruct (ltb_num _ _ Hlt) as [Hov _].
      destruct (IH {| axis := unit_axis_of e;
                      collided := collided collision |} ov Hov Hrest)
        as (N & L & A & B).
      cbv zeta. split; [exact N|].
      split; [apply ltb_leb; now apply leb_ltb_trans with ov|].
      split.
      * intros e' [<-|Hin]; [now apply leb_not_ltb|now apply A].
      * right. split; [now apply leb_ltb_trans with ov|].
        destruct B as [[E1 E2]|(_ & e' & Hin & E1 & E2)].
        -- exists e. split; [now left|]. split; [exact E2|exact E1].
        -- exists e'. split; [now right|]. now split.
    + destruct (IH collision m Hm Hrest) as (N & L & A & B).
      cbv zeta. split; [exact N|]. split; [exact L|]. split.
      * intros e' [<-|Hin]; [|now apply A].
        fold ov.
        destruct (ov <? snd (compare_loop shape1 shape2 rest collision m))
          eqn:C; [|reflexivity].
        rewrite (ltb_leb_trans _ _ _ C L) in Hlt. discriminate.
      * destruct B as [[E1 E2]|(Hs & e' & Hin & E1 & E2)]; [now left|].
        right. split; [exact Hs|]. exists e'. split; [now right|].
        now split.
Qed.

(** X6.  When a pass of [compare_collision] that started from a number [m]
    ends with collided = true, the value it leaves in *min_overlap is a
    number at or below [m], no edge normal of its first shape has a computed
    overlap strictly below it, and it is [m] itself or the computed overlap
    along one of those normals. *)
Theorem compare_collision_minimum (shape1 shape2 : list (vector_t float))
    (m : float) :
  is_num m = true ->
  collided (fst (compare_collision shape1 shape2 m)) = true ->
  let m' := snd (compare_collision shape1 shape2 m) in
  is_num m' = true /\ (m' <=? m) = true /\
  (forall e, In e (get_edges shape1) ->
     (pass_overlap shape1 shape2 e <? m') = false) /\
  (m' = m \/
   exists e, In e (get_edges shape1) /\ m' = pass_overlap shape1 shape2 e).
Proof.
  intros Hm Hc. rewrite compare_collision_collided in Hc.
  apply negb_true_iff in Hc.
  destruct (compare_loop_min shape1 shape2 (get_edges shape1)
              {| axis := VEC_ZERO; collided := false |} m Hm Hc)
    as (N & L & A & B).
  cbv zeta. unfold compare_collision.
  split; [exact N|]. split; [exact L|]. split; [exact A|].
  destruct B as [[E _]|(_ & e & Hin & _ & E)]; [now left|right].
  now exists e.
Qed.

(** C2.  Whenever [find_collision] returns collided = true, the returned
    axis is the zero vector, the minimum of both passes having stayed at
    DBL_MAX, or the normalised normal of an edge of one of the two shapes,
    as computed, whose computed overlap is strictly below DBL_MAX; and no
    edge normal of either shape has a computed overlap strictly below that
    of the returned axis. *)
Theorem find_collision_minimum_axis (body1 body2 : body_t float) :
  collided (find_collision body1 body2) = true ->
  exists depth : float,
    ((axis (find_collision body1 body2) = VEC_ZERO /\ depth = dbl_max) \/
     ((depth <? dbl_max) = true /\
      ((exists e, In e (get_edges (shape body1)) /\
          axis (find_collision body1 body2) = unit_axis_of e /\
          depth = pass_overlap (shape body1) (shape body2) e) \/
       (exists e, In e (get_edges (shape body2)) /\
          axis (find_collision body1 body2) = unit_axis_of e /\
          depth = pass_overlap (shape body2) (shape body1) e)))) /\
    (forall e, In e (get_edges (shape body1)) ->
       (pass_overlap (shape body1) (shape body2) e <? depth) = false) /\
    (forall e, In e (get_edges (shape body2)) ->
       (pass_overlap (shape body2) (shape body1) e <? depth) = false).
Proof.
  intros Hc. rewrite find_collision_collided in Hc.
  apply andb_true_iff in Hc as [Hc1 Hc2].
  pose proof Hc1 as Hs1. pose proof Hc2 as Hs2.
  rewrite compare_collision_collided in Hs1, Hs2.
  apply negb_true_iff in Hs1, Hs2.
  destruct (compare_loop_min (shape body1) (shape body2)
              (get_edges (shape body1))
              {| axis := VEC_ZERO; collided := false |} dbl_max
              dbl_max_num Hs1) as (N1 & L1 & A1 & B1).
  destruct (compare_loop_min (shape body2) (shape body1)
              (get_edges (shape body2))
              {| axis := VEC_ZERO; collided := false |} dbl_max
              dbl_max_num Hs2) as (N2 & L2 & A2 & B2).
  fold (compare_collision (shape body1) (shape body2) dbl_max) in *.
  fold (compare_collision (shape body2) (shape body1) dbl_max) in *.
  destruct (compare_collision (shape body1) (shape body2) dbl_max)
    as [c1 o1] eqn:E1.
  destruct (compare_collision (shape body2) (shape body1) dbl_max)
    as [c2 o2] eqn:E2.
  cbn [fst snd] in *.
  destruct (o1 <? o2) eqn:Hlt.
  - rewrite (find_collision_first body1 body2 E1 E2 Hc1 Hc2 Hlt).
    exists o1. split; [|split].
    + destruct B1 as [[E Ea]|(Hs & e & Hin & Ea & Eo)].
      * left. now split.
      * right. split; [exact Hs|]. left. now exists e.
    + exact A1.
    + intros e He.
      destruct (pass_overlap (shape body2) (shape body1) e <? o1) eqn:C;
        [|reflexivity].
      specialize (A2 e He). rewrite (ltb_trans _ _ _ C Hlt) in A2.
      discriminate.
  - rewrite (find_collision_second body1 body2 E1 E2 Hc1 Hc2 Hlt).
    exists o2. split; [|split].
    + destruct B2 as [[E Ea]|(Hs & e & Hin & Ea & Eo)].
      * left. now split.
      * right. split; [exact Hs|]. right. now exists e.
    + intros e He.
      destruct (pass_overlap (shape body1) (shape body2) e <? o2) eqn:C;
        [|reflexivity].
      destruct (ltb_cotrans _ o1 _ C N1) as [C1|C2].
      * rewrite (A1 e He) in C1. discriminate.
      * rewrite Hlt in C2. discriminate.
    + exact A2.
Qed.



(** *** Extreme projections and empty shapes *)

(** X5.  For a non-empty shape and an axis along which the computed
    projection of every vertex is strictly between -DBL_MAX and DBL_MAX, the
    maximum and the minimum returned by [get_max_min_projections] are
    projections of vertices (the initial values -DBL_MAX and DBL_MAX do not
    survive), the minimum is at or below the maximum, and both are strictly
    between -DBL_MAX and DBL_MAX. *)
Theorem projections_extremes (shape : list (vector_t float))
    (u : vector_t float) :
  shape <> [] ->
  (forall v, In v shape -> in_bounds (vec_dot v u) = true) ->
  (exists a, In a shape /\ x (get_max_min_projections shape u) = vec_dot a u)
  /\
  (exists b, In b shape /\ y (get_max_min_projections shape u) = vec_dot b u)
  /\
  (y (get_max_min_projections shape u) <=?
     x (get_max_min_projections shape u)) = true /\
  in_bounds (x (get_max_min_projections shape u)) = true /\
  in_bounds (y (get_max_min_projections shape u)) = true.
Proof.
  intros Hne Hb.
  destruct (projections_attained shape u Hne Hb)
    as ((a & Ha & Ea) & (b & Hb' & Eb)).
  split; [now exists a|]. split; [now exists b|].
  split.
  - destruct (in_bounds_num _ (Hb a Ha)) as (Na & _ & _).
    destruct (projections_bounds shape u a Ha Na) as [L1 L2].
    now apply leb_trans with (vec_dot a u).
  - rewrite Ea, Eb. split; now apply Hb.
Qed.

(** The maximal projection is at or below DBL_MAX when every projection is
    in bounds, whether the shape is empty or not. *)
Lemma projections_max_bound (shape : list (vector_t float))
    (u : vector_t float) :
  (forall v, In v shape -> in_bounds (vec_dot v u) = true) ->
  (x (get_max_min_projections shape u) <=? dbl_max) = true.
Proof.
  intros Hb. rewrite projections_fold. cbn [x].
  destruct (proj_fold_attained shape u dbl_max (dopp dbl_max))
    as [_ [E|(v & Hv & E)]]; rewrite E.
  - reflexivity.
  - destruct (in_bounds_num _ (Hb v Hv)) as (_ & _ & Hi).
    now apply ltb_leb.
Qed.

(** X3.  A body with an empty shape and a body whose shape has an edge
    along whose normalised normal, as computed, every vertex projects
    strictly between -DBL_MAX and DBL_MAX are reported as not colliding, in
    either order of the arguments. *)
Theorem find_collision_one_empty (body1 body2 : body_t float) :
  shape body1 = [] ->
  (exists e, In e (get_edges (shape body2)) /\
     forall v, In v (shape body2) -> in_bounds (projection_on e v) = true) ->
  collided (find_collision body1 body2) = false /\
  collided (find_collision body2 body1) = false.
Proof.
  intros E1 (e & He & Hb).
  assert (Hs : existsb (separated_on (shape body2) (shape body1))
                 (get_edges (shape body2)) = true).
  { apply existsb_exists. exists e. split; [exact He|].
    rewrite E1. unfold separated_on, separated. fsimp.
    apply orb_true_iff. left.
    change (y (get_max_min_projections [] (unit_axis_of e)))
      with (dbl_max (D := float)).
    now apply projections_max_bound. }
  rewrite !find_collision_collided, !compare_collision_collided, Hs.
  split; [apply andb_false_r|reflexivity].
Qed.
End Float64Facts.

Module Float64Checks.

Import PrimFloat.
Import Float64.

Lemma get_edges_spec_witness :
  3 <= length triangle /\
  (length (get_edges triangle) = length triangle /\
   forall i, i < length triangle ->
     nth i (get_edges triangle) VEC_ZERO =
     vec_subtract (nth i triangle VEC_ZERO)
                  (nth ((i + 1) mod length triangle) triangle VEC_ZERO)).
Proof.
  split; [simpl; lia | apply (get_edges_spec triangle); simpl; lia].
Defined.

Lemma separation_early_exit_witness :
  collided (find_collision (fbody (fsquare 0 0) 0 (Finite 1%float))
                           (fbody (fsquare 3 0) 0 (Finite 1%float))) = false /\
  forall (shapeA shapeB pre post post' : list (vector_t float)) e collision m,
    existsb (separated_on shapeA shapeB) pre = false ->
    separated_on shapeA shapeB e = true ->
    compare_loop shapeA shapeB (pre ++ e :: post) collision m =
    compare_loop shapeA shapeB (pre ++ e :: post') collision m /\
    collided (fst (compare_loop shapeA shapeB (pre ++ e :: post)
                     {| axis := VEC_ZERO; collided := false |} m)) = false.
Proof.
  apply (separation_early_exit (fbody (fsquare 0 0) 0 (Finite 1%float))
                               (fbody (fsquare 3 0) 0 (Finite 1%float))).
  left. exists (mk_vector 0 (-1))%float. split.
  - vm_compute. right. left. reflexivity.
  - vm_compute. reflexivity.
Defined.

Lemma physics_impulse_formula_witness :
  physics_collision_handler (fbody (fsquare 0 0) 1 (Finite 2%float))
                            (fbody (fsquare 1 0) (-1) (Finite 2%float))
                            (mk_vector 1 0)%float 1%float =
  Some (body_add_impulse (fbody (fsquare 0 0) 1 (Finite 2%float))
          (vec_multiply (-4)%float (mk_vector 1 0)%float),
        body_add_impulse (fbody (fsquare 1 0) (-1) (Finite 2%float))
          (vec_multiply 4%float (mk_vector 1 0)%float)).
Proof.
  exact (physics_impulse_formula (fbody (fsquare 0 0) 1 (Finite 2%float))
           (fbody (fsquare 1 0) (-1) (Finite 2%float))
           (mk_vector 1 0)%float 1%float eq_refl).
Defined.

Lemma find_collision_empty_witness :
  find_collision (fbody [] 0 (Finite 1%float)) (fbody [] 0 (Finite 1%float)) =
  {| axis := VEC_ZERO; collided := true |}.
Proof.
  apply (find_collision_empty (fbody [] 0 (Finite 1%float))
           (fbody [] 0 (Finite 1%float))); reflexivity.
Defined.

(** X11.  The returned axis is not oriented from the first body towards the
    second: there are colliding bodies for which [find_collision] returns the
    same non-zero axis in both orders. *)
Theorem find_collision_axis_unoriented :
  exists body1 body2 : body_t float,
    collided (find_collision body1 body2) = true /\
    axis (find_collision body1 body2) = axis (find_collision body2 body1) /\
    axis (find_collision body1 body2) = mk_vector 1%float 0%float.
Proof.
  exists (fbody (fsquare 0 0) 0 (Finite 1%float)).
  exists (fbody (fsquare 0.5 0) 0 (Finite 1%float)).
  repeat split; vm_compute; reflexivity.
Qed.


(** *** Exact geometry of sample shapes *)

Import Exact.

Ltac exact_values :=
  unfold exact_sq_length, F2R in *;
  repeat match goal with
  | |- context [Fnum ?f] =>
      let z := eval vm_compute in (Fnum f) in change (Fnum f) with z
  | |- context [Fden ?f] =>
      let z := eval vm_compute in (Fden f) in change (Fden f) with z
  | H : context [Fnum ?f] |- _ =>
      let z := eval vm_compute in (Fnum f) in change (Fnum f) with z in H
  | H : context [Fden ?f] |- _ =>
      let z := eval vm_compute in (Fden f) in change (Fden f) with z in H
  end.

Ltac unfold_geometry :=
  unfold edge_side, vertex, next in *;
  cbn [exact_shape exact_point map length nth Nat.add Nat.modulo Nat.divmod
       fst snd Nat.sub px py x y shape fshape fbody fsquare
       triangle near_triangle corner_triangle tiny_triangle tiny_triangle'
       right_triangle right_triangle' outer_triangle inner_triangle] in *.

Ltac three_vertices i Hi :=
  destruct i as [|[|[|i]]]; [| | |simpl in Hi; lia].


Ltac distinct_vertices :=
  let i := fresh "i" in let Hi := fresh "Hi" in let E := fresh "E" in
  intros i Hi E; three_vertices i Hi;
  pose proof (f_equal px E) as Hx; pose proof (f_equal py E) as Hy;
  unfold_geometry; exact_values; lra.







Lemma tiny_triangle_edges :
  no_zero_edge (exact_shape tiny_triangle) /\
  no_zero_edge (exact_shape tiny_triangle').
Proof. split; distinct_vertices. Qed.




(** *** Where the doubles depart from exact geometry *)



(** Two triangles without zero-length edges that collide with the zero
    vector as axis, which is none of their edge normals as computed and, of
    length 0, not a normalised vector at all. *)
Lemma find_collision_minimum_axis_counterexample :
  length tiny_triangle = 3 /\ length tiny_triangle' = 3 /\
  finite_shape tiny_triangle = true /\ finite_shape tiny_triangle' = true /\
  no_zero_edge (exact_shape tiny_triangle) /\
  no_zero_edge (exact_shape tiny_triangle') /\
  collided (find_collision (fshape tiny_triangle) (fshape tiny_triangle'))
    = true /\
  ~ In (axis (find_collision (fshape tiny_triangle) (fshape tiny_triangle')))
       (edge_normals tiny_triangle ++ edge_normals tiny_triangle') /\
  exact_sq_length
    (axis (find_collision (fshape tiny_triangle) (fshape tiny_triangle')))
  = 0%R.
Proof.
  split; [reflexivity|]. split; [reflexivity|].
  split; [reflexivity|]. split; [reflexivity|].
  split; [exact (proj1 tiny_triangle_edges)|].
  split; [exact (proj2 tiny_triangle_edges)|].
  split; [vm_compute; reflexivity|].
  split; [|exact_values; lra].
  intros Hin. vm_compute in Hin.
  repeat (destruct Hin as [E|Hin];
    [apply (f_equal (fun v => (x v =? 0)%float)) in E; vm_compute in E;
     discriminate|]).
  exact Hin.
Qed.


(** *** The theorems on doubles at concrete shapes *)



Lemma find_collision_minimum_axis_witness :
  exists depth : float,
    ((axis (find_collision (fshape (fsquare 0 0)) (fshape (fsquare 0.5 0)))
        = VEC_ZERO /\ depth = dbl_max) \/
     ((depth <? dbl_max)%float = true /\
      ((exists e, In e (get_edges (fsquare 0 0)) /\
          axis (find_collision (fshape (fsquare 0 0))
                               (fshape (fsquare 0.5 0))) = unit_axis_of e /\
          depth = pass_overlap (fsquare 0 0) (fsquare 0.5 0) e) \/
       (exists e, In e (get_edges (fsquare 0.5 0)) /\
          axis (find_collision (fshape (fsquare 0 0))
                               (fshape (fsquare 0.5 0))) = unit_axis_of e /\
          depth = pass_overlap (fsquare 0.5 0) (fsquare 0 0) e)))) /\
    (forall e, In e (get_edges (fsquare 0 0)) ->
       (pass_overlap (fsquare 0 0) (fsquare 0.5 0) e <? depth)%float = false) /\
    (forall e, In e (get_edges (fsquare 0.5 0)) ->
       (pass_overlap (fsquare 0.5 0) (fsquare 0 0) e <? depth)%float = false).
Proof.
  apply (Float64Facts.find_collision_minimum_axis
           (fshape (fsquare 0 0)) (fshape (fsquare 0.5 0))).
  vm_compute. reflexivity.
Defined.


Lemma projections_bracket_witness :
  (y (get_max_min_projections triangle (mk_vector 0.5 0.75))
     <=? vec_dot (mk_vector 4 0) (mk_vector 0.5 0.75))%float = true /\
  (vec_dot (mk_vector 4 0) (mk_vector 0.5 0.75)
     <=? x (get_max_min_projections triangle (mk_vector 0.5 0.75)))%float
    = true.
Proof.
  apply (Float64Facts.projections_bracket triangle
           (mk_vector 0.5 0.75)%float (mk_vector 4 0)%float).
  - simpl. right. left. reflexivity.
  - vm_compute. reflexivity.
Defined.

Lemma compare_collision_minimum_witness :
  let m' := snd (compare_collision (fsquare 0 0) (fsquare 0.5 0) dbl_max) in
  FloatOrder.is_num m' = true /\ (m' <=? dbl_max)%float = true /\
  (forall e, In e (get_edges (fsquare 0 0)) ->
     (pass_overlap (fsquare 0 0) (fsquare 0.5 0) e <? m')%float = false) /\
  (m' = dbl_max \/
   exists e, In e (get_edges (fsquare 0 0)) /\
     m' = pass_overlap (fsquare 0 0) (fsquare 0.5 0) e).
Proof.
  apply (Float64Facts.compare_collision_minimum
           (fsquare 0 0) (fsquare 0.5 0) dbl_max).
  - vm_compute. reflexivity.
  - vm_compute. reflexivity.
Defined.

Lemma projections_extremes_witness :
  (exists a, In a triangle /\
     x (get_max_min_projections triangle (mk_vector 0.5 0.75)%float) =
     vec_dot a (mk_vector 0.5 0.75)%float) /\
  (exists b, In b triangle /\
     y (get_max_min_projections triangle (mk_vector 0.5 0.75)%float) =
     vec_dot b (mk_vector 0.5 0.75)%float) /\
  (y (get_max_min_projections triangle (mk_vector 0.5 0.75)) <=?
     x (get_max_min_projections triangle (mk_vector 0.5 0.75)))%float
    = true /\
  in_bounds (x (get_max_min_projections triangle (mk_vector 0.5 0.75)%float))
    = true /\
  in_bounds (y (get_max_min_projections triangle (mk_vector 0.5 0.75)%float))
    = true.
Proof.
  apply (Float64Facts.projections_extremes triangle
           (mk_vector 0.5 0.75)%float).
  - discriminate.
  - intros v Hv. simpl in Hv.
    destruct Hv as [<-|[<-|[<-|[]]]]; vm_compute; reflexivity.
Defined.

Lemma find_collision_one_empty_witness :
  collided (find_collision (fshape []) (fshape triangle)) = false /\
  collided (find_collision (fshape triangle) (fshape [])) = false.
Proof.
  apply (Float64Facts.find_collision_one_empty (fshape []) (fshape triangle)).
  - reflexivity.
  - exists (mk_vector (-4) 0)%float. split.
    + vm_compute. left. reflexivity.
    + intros v Hv. simpl in Hv.
      destruct Hv as [<-|[<-|[<-|[]]]]; vm_compute; reflexivity.
Defined.

(** *** Touching shapes *)

(** X13.  Shapes that only touch are reported as not colliding: there are
    two bodies (unit squares with a common edge) whose shapes have the exact
    point (1, 0) in common and for which [find_collision] returns
    collided = false in both orders (the test of line 75 is not strict). *)
Theorem touching_squares_not_colliding :
  exists body1 body2 : body_t float,
    finite_shape (shape body1) = true /\ finite_shape (shape body2) = true /\
    in_polygon (exact_shape (shape body1)) {| px := 1; py := 0 |} /\
    in_polygon (exact_shape (shape body2)) {| px := 1; py := 0 |} /\
    collided (find_collision body1 body2) = false /\
    collided (find_collision body2 body1) = false.
Proof.
  exists (fshape (fsquare 0 0)), (fshape (fsquare 1 0)).
  split; [reflexivity|]. split; [reflexivity|].
  split; [|split; [|split; vm_compute; reflexivity]].
  - intros i Hi. destruct i as [|[|[|[|i]]]]; [| | | |simpl in Hi; lia];
      unfold_geometry; exact_values; lra.
  - intros i Hi. destruct i as [|[|[|[|i]]]]; [| | | |simpl in Hi; lia];
      unfold_geometry; exact_values; lra.
Qed.

(** *** Translations *)

(** X10.  The result of [find_collision] is not invariant under translation
    of both shapes by the same vector: the unit squares at x = 0 and x = 0.5
    collide with axis (1, 0), but moved by (2^53, 0), vertex by vertex with
    the addition of the doubles, they are reported as not colliding. *)
Theorem find_collision_translation_variant :
  exists (shape1 shape2 : list (vector_t float)) (d : vector_t float),
    find_collision (fshape shape1) (fshape shape2) =
      {| axis := mk_vector 1%float 0%float; collided := true |} /\
    collided (find_collision (fshape (map (vec_add d) shape1))
                             (fshape (map (vec_add d) shape2))) = false.
Proof.
  exists (fsquare 0 0), (fsquare 0.5 0), (mk_vector 0x1p+53 0)%float.
  split; vm_compute; reflexivity.
Qed.

End Float64Checks.
